(** * The in-memory JSON [View] of the phosphor datagrid

    A shallow embedding of [packages/datagrid/src/view.ts]: the schema
    splitting of [Private.splitFields], the missing value map of
    [Private.createMissingMap], and the four queries of the [View] class
    ([rowCount], [columnCount], [metadata], [data]), followed by the
    properties of the view that are established about them. *)

From Stdlib Require Import ZArith Floats.SpecFloat.
From stdpp Require Import gmap strings list fin_maps.

Set Warnings "-register-all".
Local Open Scope Z_scope.

(** ** The JavaScript fragment the view runs on *)

Module JS.

(** The values a cell can hold.  A record of the data source is a
    [ReadonlyJSONObject], so a cell is a JSON primitive, array or object;
    reading a key the record does not have gives [undefined].  Numbers are
    IEEE 754 doubles, given by sign, mantissa and exponent.  Only the own properties of a record are modelled. *)
Inductive Value : Type :=
  | Undefined
  | Null
  | Bool (b : bool)
  | Num (x : spec_float)
  | Str (s : string)
  | Arr (xs : list Value)
  | Obj (m : gmap string Value).

(** The double [1]: mantissa [2^52], exponent [-52]. *)
Definition one : spec_float := S754_finite false 4503599627370496 (-52).

(** What a call can throw: the [TypeError] of a property read on
    [undefined], or a value thrown by a [throw] statement (the view only
    throws strings). *)
Inductive Exn : Type :=
  | TypeError
  | Thrown (s : string).

(** The outcome of a call: a returned value or an exception. *)
Inductive Completion (A : Type) : Type :=
  | Return (a : A)
  | Throw (e : Exn).
Arguments Return {A} a.
Arguments Throw {A} e.

#[global] Instance Completion_bind : MBind Completion :=
  fun A B f c => match c with Return a => f a | Throw e => Throw e end.

(** [arr[i]]: the element at an integer index, [undefined] ([None])
    outside of [0 .. arr.length - 1]; an index that is not an integer reads
    [undefined] as well and is not modelled apart. *)
Definition index {A : Type} (arr : list A) (i : Z) : option A :=
  if i <? 0 then None else arr !! Z.to_nat i.

(** [arr.length] *)
Definition length {A : Type} (arr : list A) : Z := Z.of_nat (List.length arr).

(** [arr.indexOf(x)] on an array of strings: the first index holding [x],
    or [-1]. *)
Fixpoint indexOfFrom (arr : list string) (x : string) (i : Z) : Z :=
  match arr with
  | [] => -1
  | y :: arr' => if String.eqb y x then i else indexOfFrom arr' x (i + 1)
  end.

Definition indexOf (arr : list string) (x : string) : Z := indexOfFrom arr x 0.

(** [o[k]] where [o] may be [undefined]: a [TypeError] on [undefined],
    the property or [undefined] otherwise. *)
Definition getProperty (o : option (gmap string Value)) (k : string)
  : Completion Value :=
  match o with
  | Some r => Return (default Undefined (r !! k))
  | None => Throw TypeError
  end.

End JS.

(** ** [namespace View], [namespace Private] and [class View] *)

Module View.

(** [interface IField] *)
Record IField : Type := { name : string; type : string }.

(** [primaryKey?: string | string[]], when present. *)
Inductive PrimaryKey : Type :=
  | KeyString (s : string)
  | KeyArray (l : list string).

(** [interface ISchema]; an optional property is [None] when absent. *)
Record ISchema : Type := {
  fields : list IField;
  missingValues : option (list string);
  primaryKey : option PrimaryKey
}.

(** [type DataSource = ReadonlyArray<ReadonlyJSONObject>] *)
Abbreviation DataSource := (list (gmap string JS.Value)).

(** [interface IOptions] *)
Module IOptions.
Record t : Type := { schema : ISchema; data : DataSource }.
End IOptions.

Module Private.

(** [interface ISplitFieldsResult] *)
Record ISplitFieldsResult : Type := {
  bodyFields : list IField;
  headerFields : list IField
}.

(** The normalisation of the primary keys at the head of
    [splitFields]. *)
Definition primaryKeys (schema : ISchema) : list string :=
  match primaryKey schema with
  | None => []
  | Some (KeyString s) => [s]
  | Some (KeyArray l) => l
  end.

(** One turn of the loop of [splitFields]: [push] the field on one of
    the two arrays. *)
Definition splitStep (keys : list string) (acc : ISplitFieldsResult)
    (field : IField) : ISplitFieldsResult :=
  if JS.indexOf keys (name field) =? -1
  then {| bodyFields := bodyFields acc ++ [field];
          headerFields := headerFields acc |}
  else {| bodyFields := bodyFields acc;
          headerFields := headerFields acc ++ [field] |}.

(** [function splitFields(schema)] *)
Definition splitFields (schema : ISchema) : ISplitFieldsResult :=
  fold_left (splitStep (primaryKeys schema)) (fields schema)
    {| bodyFields := []; headerFields := [] |}.

(** [type MissingValuesMap = { [key: string]: boolean }] *)
Abbreviation MissingValuesMap := (gmap string bool).

(** [function createMissingMap(schema)]; the map starts from
    [Object.create(null)], so it has no inherited keys. *)
Definition createMissingMap (schema : ISchema) : option MissingValuesMap :=
  match missingValues schema with
  | None => None
  | Some values =>
      if JS.length values =? 0 then None
      else Some (fold_left (fun result value => <[value := true]> result)
                   values ∅)
  end.

End Private.

(** The private members of [class View]. *)
Record t : Type := {
  _data : DataSource;
  _bodyFields : list IField;
  _headerFields : list IField;
  _missingValues : option Private.MissingValuesMap
}.

(** [constructor(options)] *)
Definition constructor (options : IOptions.t) : t :=
  let split := Private.splitFields (IOptions.schema options) in
  {| _data := IOptions.data options;
     _bodyFields := Private.bodyFields split;
     _headerFields := Private.headerFields split;
     _missingValues := Private.createMissingMap (IOptions.schema options) |}.

(** A region is the string tag it is at run time. *)
Abbreviation Region := string (only parsing).

(** [rowCount(region)] *)
Definition rowCount (this : t) (region : Region) : Z :=
  if String.eqb region "body" then JS.length (_data this) else 1.

(** [columnCount(region)] *)
Definition columnCount (this : t) (region : Region) : Z :=
  if String.eqb region "body" then JS.length (_bodyFields this)
  else JS.length (_headerFields this).

(** [metadata(region, column)]; [None] is the [undefined] of an index
    out of range. *)
Definition metadata (this : t) (region : Region) (column : Z) : option IField :=
  if String.eqb region "body" || String.eqb region "column-header"
  then JS.index (_bodyFields this) column
  else JS.index (_headerFields this) column.

(** [field.name], for a [field] read from an array. *)
Definition fieldName (field : option IField) : JS.Completion string :=
  match field with
  | Some f => JS.Return (name f)
  | None => JS.Throw JS.TypeError
  end.

(** The [switch] of [data]: the value looked up for the region. *)
Definition lookup (this : t) (region : Region) (row column : Z)
  : JS.Completion JS.Value :=
  if String.eqb region "body" then
    let field := JS.index (_bodyFields this) column in
    key ← fieldName field;
    JS.getProperty (JS.index (_data this) row) key
  else if String.eqb region "column-header" then
    let field := JS.index (_bodyFields this) column in
    key ← fieldName field;
    JS.Return (JS.Str key)
  else if String.eqb region "row-header" then
    let field := JS.index (_headerFields this) column in
    key ← fieldName field;
    JS.getProperty (JS.index (_data this) row) key
  else if String.eqb region "corner-header" then
    let field := JS.index (_headerFields this) column in
    key ← fieldName field;
    JS.Return (JS.Str key)
  else JS.Throw (JS.Thrown "unreachable").

(** The test whether the value is a missing value: the map is not [null],
    [typeof value === 'string'], and the map holds [true] for it. *)
Definition isMissing (this : t) (value : JS.Value) : bool :=
  match _missingValues this with
  | None => false
  | Some map =>
      match value with
      | JS.Str s => bool_decide (map !! s = Some true)
      | _ => false
      end
  end.

(** [data(region, row, column)] *)
Definition data (this : t) (region : Region) (row column : Z)
  : JS.Completion JS.Value :=
  value ← lookup this region row column;
  let missing := isMissing this value in
  JS.Return (if missing then JS.Null else value).

End View.

Import View.

(** ** Vocabulary of the statements *)

(** Modelled from the spec: the type [DataModel.CellRegion] of
    [datamodel.ts], which is not among the sources; the closed set of the
    four region tags. *)
Definition CellRegion : list string :=
  ["body"; "row-header"; "column-header"; "corner-header"].

(** The row region and the column region that bound the indices of a cell
    of a region: a header row lies in ['column-header'], a header column in
    ['row-header']. *)
Definition rowRegionOf (region : string) : string :=
  if String.eqb region "body" || String.eqb region "row-header"
  then "body" else "column-header".

Definition columnRegionOf (region : string) : string :=
  if String.eqb region "body" || String.eqb region "column-header"
  then "body" else "row-header".

(** The error of a region outside of [CellRegion]: what the [default]
    branch of the [switch] of [data] throws. *)
Definition InvalidRegionError : JS.Exn := JS.Thrown "unreachable".

(** The strings a schema lists as missing values. *)
Definition missingStrings (schema : ISchema) : list string :=
  default [] (missingValues schema).

(** The fields whose name is a primary key, and the others. *)
Definition isKey (keys : list string) (field : IField) : Prop :=
  name field ∈ keys.

#[local] Instance isKey_dec keys field : Decision (isKey keys field).
Proof. unfold isKey. apply _. Defined.

(** The schema of [options] with another [missingValues]. *)
Definition withMissingValues (values : option (list string))
    (options : IOptions.t) : IOptions.t :=
  {| IOptions.schema :=
       {| fields := fields (IOptions.schema options);
          missingValues := values;
          primaryKey := primaryKey (IOptions.schema options) |};
     IOptions.data := IOptions.data options |}.

(** Scenario A: one integer field ['id'] that is the primary key, one
    record, no missing values. *)
Definition idField : IField := {| name := "id"; type := "integer" |}.

Definition scenarioA : IOptions.t :=
  {| IOptions.schema :=
       {| fields := [idField];
          missingValues := None;
          primaryKey := Some (KeyString "id") |};
     IOptions.data := [ {[ "id" := JS.Num JS.one ]} ] |}.

(** A schema of two fields whose primary key repeats a name. *)
Definition keyedSchema : ISchema :=
  {| fields := [idField; {| name := "x"; type := "string" |}];
     missingValues := None;
     primaryKey := Some (KeyArray ["id"; "id"]) |}.

(** Scenario B: one string field, ['NA'] as the missing value, a record
    that holds it and one that does not. *)
Definition scenarioB : IOptions.t :=
  {| IOptions.schema :=
       {| fields := [ {| name := "x"; type := "string" |} ];
          missingValues := Some ["NA"];
          primaryKey := None |};
     IOptions.data :=
       [ {[ "x" := JS.Str "NA" ]}; {[ "x" := JS.Str "hello" ]} ] |}.

(** A record that holds [null] under a schema with a missing value. *)
Definition nullCell : IOptions.t :=
  {| IOptions.schema :=
       {| fields := [ {| name := "x"; type := "string" |} ];
          missingValues := Some ["NA"];
          primaryKey := None |};
     IOptions.data := [ {[ "x" := JS.Null ]} ] |}.

(** A grid with a key field, two body fields of the same name, a body
    field whose name is listed as a missing value, and a body field that
    the one record has no property for. *)
Definition sampleGrid : IOptions.t :=
  {| IOptions.schema :=
       {| fields := [ idField;
                      {| name := "x"; type := "string" |};
                      {| name := "x"; type := "number" |};
                      {| name := "NA"; type := "string" |};
                      {| name := "y"; type := "string" |} ];
          missingValues := Some ["NA"; "-"; "NA"];
          primaryKey := Some (KeyString "id") |};
     IOptions.data :=
       [ {[ "id" := JS.Num JS.one; "x" := JS.Str "hello";
            "NA" := JS.Str "-" ]} ] |}.

(** A value read through a list of missing strings: [null] for a string
    of the list, the value itself otherwise. *)
Definition substitute (missing : list string) (value : JS.Value) : JS.Value :=
  match value with
  | JS.Str s => if decide (s ∈ missing) then JS.Null else value
  | _ => value
  end.

(** ** Arrays *)

Section arrays.
Context {A : Type}.
Implicit Types (arr : list A) (i : Z).

Lemma index_is_Some arr i : is_Some (JS.index arr i) ↔ 0 ≤ i < JS.length arr.
Proof.
  unfold JS.index, JS.length. destruct (Z.ltb_spec i 0) as [Hi|Hi].
  - split; [intros [x Hx]; discriminate | lia].
  - rewrite lookup_lt_is_Some. lia.
Qed.

End arrays.

Lemma indexOfFrom_absent (arr : list string) (x : string) (i : Z) :
  0 ≤ i → JS.indexOfFrom arr x i = -1 ↔ x ∉ arr.
Proof.
  revert i. induction arr as [|y arr IH]; intros i Hi; simpl.
  - split; [intros _; apply not_elem_of_nil | done].
  - rewrite not_elem_of_cons. destruct (String.eqb_spec y x) as [->|Hne].
    + split; [lia | intros [Hx _]; done].
    + rewrite IH by lia. split; [intros Hx; split; [congruence | done] | tauto].
Qed.

(** [indexOf] answers [-1] exactly for the strings the array does not hold. *)
Lemma indexOf_absent (arr : list string) (x : string) :
  JS.indexOf arr x = -1 ↔ x ∉ arr.
Proof. by apply indexOfFrom_absent. Qed.

(** Two predicates that agree on the elements of a list filter it alike. *)
Lemma filter_agree {A : Type} (P Q : A → Prop)
    `{!∀ x, Decision (P x), !∀ x, Decision (Q x)} (l : list A) :
  (∀ x, x ∈ l → (P x ↔ Q x)) → filter P l = filter Q l.
Proof.
  induction l as [|x l IH]; intros HPQ; [done|].
  assert (Hx : P x ↔ Q x) by (apply HPQ; by left).
  rewrite !filter_cons, IH by (intros y Hy; apply HPQ; by right).
  destruct (decide (P x)), (decide (Q x)); tauto.
Qed.

(** ** [splitFields] *)

Section split.
Import Private.
Implicit Types (keys : list string) (fs : list IField) (schema : ISchema).

Lemma splitStep_key keys acc field :
  isKey keys field →
  splitStep keys acc field =
    {| bodyFields := bodyFields acc;
       headerFields := headerFields acc ++ [field] |}.
Proof.
  intros Hk. unfold splitStep.
  destruct (Z.eqb_spec (JS.indexOf keys (name field)) (-1)) as [Heq|_]; [|done].
  apply indexOf_absent in Heq. contradiction.
Qed.

Lemma splitStep_not_key keys acc field :
  ¬ isKey keys field →
  splitStep keys acc field =
    {| bodyFields := bodyFields acc ++ [field];
       headerFields := headerFields acc |}.
Proof.
  intros Hk. unfold splitStep.
  destruct (Z.eqb_spec (JS.indexOf keys (name field)) (-1)) as [_|Hne]; [done|].
  rewrite indexOf_absent in Hne. contradict Hne. exact Hk.
Qed.

(** The loop of [splitFields], from any state of the two arrays. *)
Lemma splitFields_loop keys fs acc :
  fold_left (splitStep keys) fs acc =
    {| bodyFields := bodyFields acc ++ filter (λ f, ¬ isKey keys f) fs;
       headerFields := headerFields acc ++ filter (isKey keys) fs |}.
Proof.
  revert acc. induction fs as [|f fs IH]; intros acc; simpl.
  - rewrite !filter_nil, !app_nil_r. by destruct acc.
  - rewrite IH. destruct (decide (isKey keys f)) as [Hk|Hk].
    + rewrite splitStep_key by done. simpl.
      rewrite (filter_cons_True (isKey keys)) by done.
      rewrite (filter_cons_False (λ f, ¬ isKey keys f)) by tauto.
      by rewrite <- app_assoc.
    + rewrite splitStep_not_key by done. simpl.
      rewrite (filter_cons_False (isKey keys)) by done.
      rewrite (filter_cons_True (λ f, ¬ isKey keys f)) by done.
      by rewrite <- app_assoc.
Qed.

Lemma splitFields_body schema :
  bodyFields (splitFields schema) =
    filter (λ f, ¬ isKey (primaryKeys schema) f) (fields schema).
Proof. unfold splitFields. by rewrite splitFields_loop. Qed.

Lemma splitFields_header schema :
  headerFields (splitFields schema) =
    filter (isKey (primaryKeys schema)) (fields schema).
Proof. unfold splitFields. by rewrite splitFields_loop. Qed.

(** The split only looks at which field names are primary keys. *)
Lemma splitFields_ext schema schema' :
  fields schema = fields schema' →
  (∀ f, f ∈ fields schema →
     (name f ∈ primaryKeys schema ↔ name f ∈ primaryKeys schema')) →
  splitFields schema = splitFields schema'.
Proof.
  intros Hfs Hkeys.
  pose proof (splitFields_body schema) as Hb.
  pose proof (splitFields_header schema) as Hh.
  pose proof (splitFields_body schema') as Hb'.
  pose proof (splitFields_header schema') as Hh'.
  rewrite <- Hfs in Hb', Hh'.
  destruct (splitFields schema) as [b h], (splitFields schema') as [b' h'].
  simpl in *. subst. f_equal; apply filter_agree; intros f Hf; unfold isKey.
  - by rewrite Hkeys.
  - by apply Hkeys.
Qed.

(** C1: the two arrays of [splitFields] partition the fields of the schema:
    together they hold the fields of the schema, each as often as the schema
    does; a field of the schema is in one of them and not in the other; the
    two lengths add up to the number of fields; and each array lists its
    fields in the order of the schema. *)
Theorem splitFields_partition schema :
  let split := splitFields schema in
  bodyFields split ++ headerFields split ≡ₚ fields schema
  ∧ (∀ f, f ∈ fields schema →
       (f ∈ bodyFields split ∧ f ∉ headerFields split)
       ∨ (f ∈ headerFields split ∧ f ∉ bodyFields split))
  ∧ JS.length (bodyFields split) + JS.length (headerFields split)
    = JS.length (fields schema)
  ∧ bodyFields split `sublist_of` fields schema
  ∧ headerFields split `sublist_of` fields schema.
Proof.
  intros split. subst split.
  rewrite splitFields_body, splitFields_header.
  set (keys := primaryKeys schema). set (fs := fields schema).
  assert (Hperm : filter (λ f, ¬ isKey keys f) fs ++ filter (isKey keys) fs ≡ₚ fs).
  { rewrite Permutation_app_comm. apply filter_app_complement. }
  split; [exact Hperm|]. split; [|split; [|split]].
  - intros f Hf. rewrite !list_elem_of_filter.
    destruct (decide (isKey keys f)); [right | left]; tauto.
  - apply Permutation_length in Hperm. rewrite length_app in Hperm.
    unfold JS.length. lia.
  - apply sublist_filter.
  - apply sublist_filter.
Qed.

(** C3: [splitFields] normalises the primary key to a list of names (none
    when it is absent, the one string, or the array as given); the header
    fields are the fields whose name is in that list, the body fields are
    the others, both in schema order; and the split stays the same when the
    list changes without changing which field names it holds, so that a
    repeated name, or a name that no field has, does not count. *)
Theorem splitFields_primaryKey schema :
  let keys := primaryKeys schema in
  (∀ k, k ∈ keys ↔
        match primaryKey schema with
        | None => False
        | Some (KeyString s) => k = s
        | Some (KeyArray l) => k ∈ l
        end)
  ∧ headerFields (splitFields schema)
    = filter (λ f, name f ∈ keys) (fields schema)
  ∧ bodyFields (splitFields schema)
    = filter (λ f, name f ∉ keys) (fields schema)
  ∧ (∀ schema', fields schema' = fields schema →
       (∀ k, k ∈ name <$> fields schema →
          (k ∈ primaryKeys schema' ↔ k ∈ keys)) →
       splitFields schema' = splitFields schema)
  ∧ (∀ k, k ∉ name <$> fields schema →
       splitFields {| fields := fields schema;
                      missingValues := missingValues schema;
                      primaryKey := Some (KeyArray (k :: keys)) |}
       = splitFields schema).
Proof.
  intros keys. subst keys. split; [|split; [|split; [|split]]].
  - intros k. unfold primaryKeys. destruct (primaryKey schema) as [[s|l]|].
    + apply list_elem_of_singleton.
    + done.
    + apply elem_of_nil.
  - apply splitFields_header.
  - apply splitFields_body.
  - intros schema' Hfs Hkeys. apply splitFields_ext; [done|].
    intros f Hf. apply Hkeys. apply list_elem_of_fmap_2. by rewrite <- Hfs.
  - intros k Hk. apply splitFields_ext; [done|]. simpl.
    intros f Hf. unfold primaryKeys at 1. simpl. rewrite elem_of_cons.
    split; [intros [Heq|Hin]; [|done] | by right].
    exfalso. apply Hk. rewrite <- Heq. by apply list_elem_of_fmap_2.
Qed.

Lemma splitFields_partition_witness :
  (idField ∈ bodyFields (splitFields keyedSchema)
   ∧ idField ∉ headerFields (splitFields keyedSchema))
  ∨ (idField ∈ headerFields (splitFields keyedSchema)
     ∧ idField ∉ bodyFields (splitFields keyedSchema)).
Proof.
  apply (proj1 (proj2 (splitFields_partition keyedSchema))).
  simpl. apply list_elem_of_here.
Defined.

Lemma splitFields_primaryKey_witness :
  splitFields
    {| fields := fields keyedSchema;
       missingValues := missingValues keyedSchema;
       primaryKey := Some (KeyArray ["ghost"; "id"; "id"]) |}
  = splitFields keyedSchema.
Proof.
  apply (proj2 (proj2 (proj2 (proj2 (splitFields_primaryKey keyedSchema))))).
  simpl. rewrite !elem_of_cons, elem_of_nil.
  intros [H | [H | H]]; [discriminate H | discriminate H | exact H].
Defined.

End split.

(** ** [rowCount] *)

(** C4: the body has as many rows as the data source, which for a
    constructed view is the [data] of its options, and every other row
    region, ['column-header'] among them, has one row, whatever the data
    source is. *)
Theorem rowCount_law (this : View.t) :
  rowCount this "body" = JS.length (_data this)
  ∧ rowCount this "column-header" = 1
  ∧ (∀ region : string, region ≠ "body" → rowCount this region = 1)
  ∧ ∀ options : IOptions.t,
      rowCount (constructor options) "body"
      = JS.length (IOptions.data options).
Proof.
  split; [reflexivity|]. split; [reflexivity|]. split; [|reflexivity].
  intros region Hne. unfold rowCount.
  destruct (String.eqb_spec region "body"); [contradiction | reflexivity].
Qed.

Lemma rowCount_law_witness :
  rowCount (constructor scenarioB) "body" = 2
  ∧ rowCount (constructor scenarioB) "row-header" = 1.
Proof.
  split.
  - exact (proj1 (rowCount_law (constructor scenarioB))).
  - apply (proj1 (proj2 (proj2 (rowCount_law (constructor scenarioB))))).
    intros H. discriminate H.
Defined.

(** ** [columnCount] and [metadata] *)

(** C5: the body has as many columns as there are body fields, and the row
    header as many as there are header fields; for a constructed view these
    are the two arrays of [splitFields]. *)
Theorem columnCount_law (this : View.t) :
  columnCount this "body" = JS.length (_bodyFields this)
  ∧ columnCount this "row-header" = JS.length (_headerFields this)
  ∧ ∀ options : IOptions.t,
      let split := Private.splitFields (IOptions.schema options) in
      columnCount (constructor options) "body"
      = JS.length (Private.bodyFields split)
      ∧ columnCount (constructor options) "row-header"
        = JS.length (Private.headerFields split).
Proof. repeat split. Qed.

(** Within the column count of its column region, [metadata] is a field of
    the view. *)
Lemma metadata_in_bounds (this : View.t) (region : string) (column : Z) :
  0 ≤ column < columnCount this (columnRegionOf region) →
  is_Some (metadata this region column).
Proof.
  unfold metadata, columnCount, columnRegionOf.
  destruct (String.eqb region "body" || String.eqb region "column-header");
    simpl; apply index_is_Some.
Qed.

(** C7: a body column and its column header have the same metadata, and so
    have a row header column and its corner header, at every column
    index. *)
Theorem metadata_header_consistency (this : View.t) (c : Z) :
  metadata this "body" c = metadata this "column-header" c
  ∧ metadata this "row-header" c = metadata this "corner-header" c.
Proof. split; reflexivity. Qed.

(** ** The missing value map *)

Section missing.
Import Private.

Lemma missing_loop (values : list string) (map : gmap string bool) (s : string) :
  fold_left (λ result value, <[value := true]> result) values map !! s
    = Some true
  ↔ s ∈ values ∨ map !! s = Some true.
Proof.
  revert map. induction values as [|v values IH]; intros map; simpl.
  - rewrite elem_of_nil. tauto.
  - rewrite IH, elem_of_cons. destruct (decide (v = s)) as [->|Hne].
    + rewrite lookup_insert_eq. tauto.
    + rewrite lookup_insert_ne by done. split; [tauto|].
      intros [[Heq|Hin]|Hm]; [congruence | tauto | tauto].
Qed.

(** No map is made exactly when the schema lists no missing value. *)
Lemma createMissingMap_None (schema : ISchema) :
  createMissingMap schema = None ↔ missingStrings schema = [].
Proof.
  unfold createMissingMap, missingStrings.
  destruct (missingValues schema) as [[|v values]|]; simpl; split; done.
Qed.

(** The keys that the map sends to [true] are the listed strings. *)
Lemma createMissingMap_lookup (schema : ISchema) (map : gmap string bool)
    (s : string) :
  createMissingMap schema = Some map →
  map !! s = Some true ↔ s ∈ missingStrings schema.
Proof.
  unfold createMissingMap, missingStrings.
  destruct (missingValues schema) as [values|]; [|discriminate]. simpl.
  destruct (JS.length values =? 0); [discriminate|].
  intros [= <-]. rewrite missing_loop, lookup_empty. split; [|tauto].
  intros [Hin|Hm]; [done | discriminate].
Qed.

(** The test of [data] on a constructed view. *)
Lemma isMissing_constructor (options : IOptions.t) (value : JS.Value) :
  isMissing (constructor options) value = true
  ↔ ∃ s, value = JS.Str s ∧ s ∈ missingStrings (IOptions.schema options).
Proof.
  unfold isMissing. simpl.
  destruct (createMissingMap (IOptions.schema options)) as [map|] eqn:Hmap.
  - destruct value as [| | | |s| |];
      try (split; [discriminate | intros (s' & [=] & _)]).
    rewrite bool_decide_eq_true, (createMissingMap_lookup _ _ _ Hmap).
    split; [eauto | by intros (s' & [= <-] & Hin)].
  - apply createMissingMap_None in Hmap. rewrite Hmap.
    split; [discriminate | intros (s & _ & Hin)]. by apply elem_of_nil in Hin.
Qed.

End missing.

(** ** [data] *)

Section data.
Implicit Types (this : View.t) (region : string) (row column : Z).

Lemma elem_of_CellRegion region :
  region ∈ CellRegion ↔
  region = "body" ∨ region = "row-header" ∨ region = "column-header"
  ∨ region = "corner-header".
Proof.
  unfold CellRegion. rewrite !elem_of_cons, elem_of_nil. tauto.
Qed.

(** Outside of the four regions the [switch] throws. *)
Lemma lookup_default this region row column :
  region ∉ CellRegion →
  lookup this region row column = JS.Throw InvalidRegionError.
Proof.
  rewrite elem_of_CellRegion. intros Hne. unfold lookup.
  destruct (String.eqb_spec region "body"); [tauto|].
  destruct (String.eqb_spec region "column-header"); [tauto|].
  destruct (String.eqb_spec region "row-header"); [tauto|].
  destruct (String.eqb_spec region "corner-header"); [tauto|].
  reflexivity.
Qed.

(** Inside of them the only exception is the [TypeError] of an index out
    of range. *)
Lemma lookup_CellRegion this region row column :
  region ∈ CellRegion →
  lookup this region row column = JS.Throw JS.TypeError
  ∨ ∃ value, lookup this region row column = JS.Return value.
Proof.
  rewrite elem_of_CellRegion.
  intros [-> | [-> | [-> | ->]]]; unfold lookup; simpl;
    match goal with
    | |- context [JS.index ?fs column] => destruct (JS.index fs column)
    end; simpl; auto;
    try (destruct (JS.index (_data this) row); simpl); eauto.
Qed.

(** With the indices in range the [switch] finds a value. *)
Lemma lookup_in_bounds this region row column :
  region ∈ CellRegion →
  0 ≤ row < rowCount this (rowRegionOf region) →
  0 ≤ column < columnCount this (columnRegionOf region) →
  ∃ value, lookup this region row column = JS.Return value.
Proof.
  rewrite elem_of_CellRegion.
  intros [-> | [-> | [-> | ->]]] Hrow Hcol; unfold lookup; simpl;
    apply index_is_Some in Hcol as [f ->]; simpl; eauto;
    apply index_is_Some in Hrow as [r ->]; simpl; eauto.
Qed.

(** [data] is the looked up value, or [null] when that is a missing
    value. *)
Lemma data_Return this region row column value :
  lookup this region row column = JS.Return value →
  data this region row column
  = JS.Return (if isMissing this value then JS.Null else value).
Proof. intros Hv. unfold data. by rewrite Hv. Qed.

Lemma data_Throw this region row column e :
  lookup this region row column = JS.Throw e →
  data this region row column = JS.Throw e.
Proof. intros Hv. unfold data. by rewrite Hv. Qed.

(** C2, as the code has it: for a region of the four, a row and a column
    in range, [data] returns a value; it is [null] when the looked up value
    is a string that the schema lists as missing, and the looked up value
    itself otherwise.  So [data] answers [null] exactly when the looked up
    value is such a string or is [null] already. *)
Theorem data_missing_value_law (options : IOptions.t) region row column :
  let this := constructor options in
  let missing := missingStrings (IOptions.schema options) in
  region ∈ CellRegion →
  0 ≤ row < rowCount this (rowRegionOf region) →
  0 ≤ column < columnCount this (columnRegionOf region) →
  ∃ value,
    lookup this region row column = JS.Return value
    ∧ ((∃ s, value = JS.Str s ∧ s ∈ missing) →
       data this region row column = JS.Return JS.Null)
    ∧ (¬ (∃ s, value = JS.Str s ∧ s ∈ missing) →
       data this region row column = JS.Return value)
    ∧ (data this region row column = JS.Return JS.Null
       ↔ value = JS.Null ∨ ∃ s, value = JS.Str s ∧ s ∈ missing).
Proof.
  intros this missing Hregion Hrow Hcol.
  destruct (lookup_in_bounds this region row column) as [value Hv]; try done.
  exists value. split; [done|].
  rewrite (data_Return _ _ _ _ _ Hv).
  pose proof (isMissing_constructor options value) as Hmiss.
  fold this missing in Hmiss.
  destruct (isMissing this value) eqn:Htest.
  - assert (Hs : ∃ s, value = JS.Str s ∧ s ∈ missing) by by apply Hmiss.
    split; [done|]. split; [done|]. split; [by right | done].
  - assert (Hs : ¬ ∃ s, value = JS.Str s ∧ s ∈ missing).
    { intros Hs. apply Hmiss in Hs. discriminate. }
    split; [done|]. split; [done|].
    split; [intros [= ->]; by left | intros [-> | Hs']; done].
Qed.

(** C8: a region outside of the four makes [data] fail with the invalid
    region error, on every view, row and column; a region of the four never
    does. *)
Theorem data_invalid_region this region row column :
  (region ∉ CellRegion →
   data this region row column = JS.Throw InvalidRegionError)
  ∧ (region ∈ CellRegion →
     data this region row column ≠ JS.Throw InvalidRegionError).
Proof.
  split; intros Hregion.
  - apply data_Throw. by apply lookup_default.
  - destruct (lookup_CellRegion this region row column Hregion)
      as [Hv | [value Hv]].
    + by rewrite (data_Throw _ _ _ _ _ Hv).
    + by rewrite (data_Return _ _ _ _ _ Hv).
Qed.

(** C10: in the column header and in the corner header, [data] does not
    look at the row: any two rows give the same result, which is decided
    by the name of the field of the column. *)
Theorem data_header_row_independent this column (r1 r2 : Z) :
  data this "column-header" r1 column = data this "column-header" r2 column
  ∧ data this "corner-header" r1 column = data this "corner-header" r2 column
  ∧ lookup this "column-header" r1 column
    = (key ← fieldName (JS.index (_bodyFields this) column);
       JS.Return (JS.Str key))
  ∧ lookup this "corner-header" r1 column
    = (key ← fieldName (JS.index (_headerFields this) column);
       JS.Return (JS.Str key)).
Proof. repeat split. Qed.

(** C6: the view of a schema whose [missingValues] is the empty array is
    the view of the same schema without [missingValues]: the four queries
    agree on every argument, and [data] is the looked up value in both. *)
Theorem missingValues_empty_absent (options : IOptions.t) region row column :
  let empty := constructor (withMissingValues (Some []) options) in
  let absent := constructor (withMissingValues None options) in
  empty = absent
  ∧ rowCount empty region = rowCount absent region
  ∧ columnCount empty region = columnCount absent region
  ∧ metadata empty region column = metadata absent region column
  ∧ data empty region row column = data absent region row column
  ∧ data empty region row column = lookup empty region row column
  ∧ data absent region row column = lookup absent region row column.
Proof.
  intros empty absent.
  assert (Heq : empty = absent) by reflexivity.
  assert (Hraw : data absent region row column
                 = lookup absent region row column).
  { unfold data. by destruct (lookup absent region row column). }
  rewrite Heq. repeat split; done.
Qed.

(** C9: scenario A.  The one field is a header field, there is no body
    column and one row header column, the row header cell is the number
    [1] and the corner header cell is the label ['id']. *)
Theorem scenario_A :
  let this := constructor scenarioA in
  let split := Private.splitFields (IOptions.schema scenarioA) in
  Private.bodyFields split = []
  ∧ Private.headerFields split = [idField]
  ∧ _bodyFields this = []
  ∧ _headerFields this = [idField]
  ∧ columnCount this "body" = 0
  ∧ columnCount this "row-header" = 1
  ∧ data this "row-header" 0 0 = JS.Return (JS.Num JS.one)
  ∧ data this "corner-header" 0 0 = JS.Return (JS.Str "id").
Proof. repeat split. Qed.

(** Scenario B: the missing value reads as [null], the other string as
    itself. *)
Example scenario_B :
  let this := constructor scenarioB in
  data this "body" 0 0 = JS.Return JS.Null
  ∧ data this "body" 1 0 = JS.Return (JS.Str "hello").
Proof. split; reflexivity. Qed.

Lemma data_missing_value_law_witness :
  ∃ value,
    lookup (constructor scenarioB) "body" 0 0 = JS.Return value
    ∧ ((∃ s, value = JS.Str s ∧ s ∈ ["NA"]) →
       data (constructor scenarioB) "body" 0 0 = JS.Return JS.Null)
    ∧ (¬ (∃ s, value = JS.Str s ∧ s ∈ ["NA"]) →
       data (constructor scenarioB) "body" 0 0 = JS.Return value)
    ∧ (data (constructor scenarioB) "body" 0 0 = JS.Return JS.Null
       ↔ value = JS.Null ∨ ∃ s, value = JS.Str s ∧ s ∈ ["NA"]).
Proof.
  apply (data_missing_value_law scenarioB "body" 0 0).
  - apply elem_of_CellRegion. by left.
  - vm_compute. split; [intros H; discriminate H | reflexivity].
  - vm_compute. split; [intros H; discriminate H | reflexivity].
Defined.

(** C2, as it is worded, fails on a record that holds [null]: [data]
    answers [null] although the looked up value is not a string, let alone
    a missing value. *)
Lemma data_null_without_missing_value :
  let this := constructor nullCell in
  "body" ∈ CellRegion
  ∧ 0 ≤ 0 < rowCount this (rowRegionOf "body")
  ∧ 0 ≤ 0 < columnCount this (columnRegionOf "body")
  ∧ ¬ (data this "body" 0 0 = JS.Return JS.Null
       ↔ ∃ s, lookup this "body" 0 0 = JS.Return (JS.Str s)
              ∧ s ∈ missingStrings (IOptions.schema nullCell)).
Proof.
  intros this. split; [apply elem_of_CellRegion; by left|].
  split; [by vm_compute|]. split; [by vm_compute|].
  intros [Hnull _]. destruct Hnull as (s & Hs & _); [reflexivity|].
  discriminate Hs.
Qed.

Lemma data_invalid_region_witness :
  data (constructor scenarioA) "footer" 0 0 = JS.Throw InvalidRegionError
  ∧ data (constructor scenarioA) "row-header" 0 0
    ≠ JS.Throw InvalidRegionError.
Proof.
  split.
  - apply (proj1 (data_invalid_region (constructor scenarioA) "footer" 0 0)).
    rewrite elem_of_CellRegion. intros [H | [H | [H | H]]]; discriminate H.
  - apply (proj2 (data_invalid_region (constructor scenarioA) "row-header" 0 0)).
    apply elem_of_CellRegion. right. by left.
Defined.

End data.

(** ** The outcome of [data] *)

Section outcome.
Implicit Types (this : View.t) (region : string) (row column : Z).

(** In the body and the row header, the [switch] reads the property of the
    record of the row under the name of the field of the column. *)
Lemma lookup_cell this region row column :
  region = "body" ∨ region = "row-header" →
  lookup this region row column
  = (key ← fieldName (metadata this region column);
     JS.getProperty (JS.index (_data this) row) key).
Proof. by intros [-> | ->]. Qed.

(** In the column header and the corner header, it takes the name of the
    field of the column. *)
Lemma lookup_label this region row column :
  region = "column-header" ∨ region = "corner-header" →
  lookup this region row column
  = (key ← fieldName (metadata this region column); JS.Return (JS.Str key)).
Proof. by intros [-> | ->]. Qed.

Lemma metadata_is_Some this region column :
  is_Some (metadata this region column)
  ↔ 0 ≤ column < columnCount this (columnRegionOf region).
Proof.
  unfold metadata, columnCount, columnRegionOf.
  destruct (String.eqb region "body" || String.eqb region "column-header");
    simpl; apply index_is_Some.
Qed.

(** X1: for a region of the four, [data] returns a value exactly when the
    column is within the column count of its column region and, in the body
    and the row header, the row is within the data source; otherwise it
    fails with a [TypeError].  A header region accepts any row. *)
Theorem data_outcome this region row column :
  region ∈ CellRegion →
  let columnOk := 0 ≤ column < columnCount this (columnRegionOf region) in
  let rowOk :=
    region = "body" ∨ region = "row-header" →
    0 ≤ row < rowCount this "body" in
  (columnOk ∧ rowOk → ∃ value, data this region row column = JS.Return value)
  ∧ (¬ (columnOk ∧ rowOk) →
     data this region row column = JS.Throw JS.TypeError).
Proof.
  intros Hregion columnOk rowOk. subst columnOk rowOk.
  rewrite <- metadata_is_Some. unfold rowCount. simpl.
  rewrite <- (index_is_Some (_data this) row).
  apply elem_of_CellRegion in Hregion. unfold data.
  destruct Hregion as [Hcell | [Hcell | [Hlabel | Hlabel]]].
  1,2: rewrite lookup_cell by tauto.
  3,4: rewrite lookup_label by tauto.
  all: destruct (metadata this region column) as [f|]; simpl.
  all: try destruct (JS.index (_data this) row) as [record|]; simpl.
  all: split; [intros [Hcol Hrow]
              | intros Hno; try reflexivity; exfalso; apply Hno].
  all: try (eexists; reflexivity).
  all: try (by destruct Hcol as [? [=]]).
  all: try (by destruct Hrow as [? [=]]; tauto).
  all: try (split; [by eexists | intros _; by eexists]).
  all: split; [by eexists | intros [Heq | Heq]; subst; discriminate].
Qed.

Lemma data_outcome_witness :
  (∃ value, data (constructor sampleGrid) "column-header" 99 0
            = JS.Return value)
  ∧ data (constructor sampleGrid) "body" 99 0 = JS.Throw JS.TypeError.
Proof.
  split.
  - apply (proj1 (data_outcome (constructor sampleGrid) "column-header" 99 0
                    ltac:(apply elem_of_CellRegion; tauto))).
    split.
    + vm_compute. split; [intros H; discriminate H | reflexivity].
    + intros [H | H]; discriminate H.
  - apply (proj2 (data_outcome (constructor sampleGrid) "body" 99 0
                    ltac:(apply elem_of_CellRegion; tauto))).
    intros [_ Hrow]. specialize (Hrow (or_introl eq_refl)).
    vm_compute in Hrow. destruct Hrow as [_ Hlt]. discriminate Hlt.
Defined.

End outcome.

(** ** Cells and labels *)

Section cells.
Implicit Types (this : View.t) (options : IOptions.t) (region : string).
Implicit Types (row column : Z) (f : IField).

(** X2: a constructed view never returns a string that its schema lists as
    a missing value, in any region and at any row and column. *)
Theorem data_never_missing_string options region row column (s : string) :
  data (constructor options) region row column = JS.Return (JS.Str s) →
  s ∉ missingStrings (IOptions.schema options).
Proof.
  unfold data.
  destruct (lookup (constructor options) region row column) as [value|e];
    simpl; [|discriminate].
  destruct (isMissing (constructor options) value) eqn:Htest; [discriminate|].
  intros [= ->] Hin.
  assert (isMissing (constructor options) (JS.Str s) = true) as Hyes.
  { apply isMissing_constructor. eauto. }
  congruence.
Qed.

Lemma data_never_missing_string_witness :
  "hello" ∉ missingStrings (IOptions.schema sampleGrid).
Proof.
  apply (data_never_missing_string sampleGrid "body" 0 0 "hello").
  reflexivity.
Defined.

(** X3: the label of a header cell is the name of the field of its column,
    read through the missing values like any cell: a field whose name the
    schema lists as missing is labelled [null]. *)
Theorem data_header_label options region row column f :
  region = "column-header" ∨ region = "corner-header" →
  metadata (constructor options) region column = Some f →
  data (constructor options) region row column
  = JS.Return (if decide (name f ∈ missingStrings (IOptions.schema options))
               then JS.Null else JS.Str (name f)).
Proof.
  intros Hregion Hf. unfold data. rewrite lookup_label, Hf by done. simpl.
  pose proof (isMissing_constructor options (JS.Str (name f))) as Hmiss.
  destruct (isMissing (constructor options) (JS.Str (name f))).
  - destruct Hmiss as [(s & [= <-] & Hin) _]; [done|]. by rewrite decide_True.
  - rewrite decide_False; [done|]. intros Hin.
    destruct Hmiss as [_ Hyes]. by discriminate Hyes; eauto.
Qed.

Lemma data_header_label_witness :
  data (constructor sampleGrid) "column-header" 0 2 = JS.Return JS.Null
  ∧ data (constructor sampleGrid) "corner-header" 0 0
    = JS.Return (JS.Str "id").
Proof.
  split.
  - apply (data_header_label sampleGrid "column-header" 0 2
             {| name := "NA"; type := "string" |}); [by left | reflexivity].
  - apply (data_header_label sampleGrid "corner-header" 0 0 idField);
      [by right | reflexivity].
Defined.



(** X5: two columns of a region whose fields have the same name read the
    same value at every row: a cell depends on its field by the name
    alone. *)
Theorem data_same_name this region row (c1 c2 : Z) (f1 f2 : IField) :
  metadata this region c1 = Some f1 →
  metadata this region c2 = Some f2 →
  name f1 = name f2 →
  data this region row c1 = data this region row c2.
Proof.
  intros H1 H2 Hname. unfold data.
  destruct (decide (region ∈ CellRegion)) as [Hin|Hout].
  - apply elem_of_CellRegion in Hin.
    destruct Hin as [Hcell | [Hcell | [Hlabel | Hlabel]]].
    1,2: rewrite !lookup_cell by tauto.
    3,4: rewrite !lookup_label by tauto.
    all: rewrite H1, H2; simpl; by rewrite Hname.
  - by rewrite !lookup_default.
Qed.

Lemma data_same_name_witness :
  data (constructor sampleGrid) "body" 0 0
  = data (constructor sampleGrid) "body" 0 1.
Proof.
  apply (data_same_name (constructor sampleGrid) "body" 0 0 1
           {| name := "x"; type := "string" |}
           {| name := "x"; type := "number" |}); reflexivity.
Defined.

End cells.

(** ** The columns of a constructed view *)

Section columns.
Import Private.
Implicit Types (options : IOptions.t) (schema : ISchema) (region : string).
Implicit Types (column : Z) (f : IField).

Lemma index_Some_elem_of {A : Type} (arr : list A) (i : Z) (x : A) :
  JS.index arr i = Some x → x ∈ arr.
Proof.
  unfold JS.index. destruct (i <? 0); [discriminate|].
  apply list_elem_of_lookup_2.
Qed.

Lemma elem_of_index {A : Type} (arr : list A) (x : A) :
  x ∈ arr → ∃ i, 0 ≤ i < JS.length arr ∧ JS.index arr i = Some x.
Proof.
  intros [n Hn]%list_elem_of_lookup_1. exists (Z.of_nat n).
  pose proof (lookup_lt_Some _ _ _ Hn) as Hlt. unfold JS.index, JS.length.
  split; [lia|]. destruct (Z.ltb_spec (Z.of_nat n) 0); [lia|].
  by rewrite Nat2Z.id.
Qed.

Lemma filter_nil_iff {A : Type} (P : A → Prop) `{!∀ x, Decision (P x)}
    (l : list A) :
  filter P l = [] ↔ ∀ x, x ∈ l → ¬ P x.
Proof.
  induction l as [|x l IH].
  - split; [intros _ y Hy; by apply elem_of_nil in Hy | done].
  - rewrite filter_cons. destruct (decide (P x)) as [HP|HP].
    + split; [discriminate|]. intros Hall. exfalso.
      apply (Hall x); [by left | done].
    + rewrite IH. split.
      * intros Hall y [-> | Hy]%elem_of_cons; [done | by apply Hall].
      * intros Hall y Hy. apply Hall. by right.
Qed.

Lemma filter_all {A : Type} (P : A → Prop) `{!∀ x, Decision (P x)}
    (l : list A) :
  (∀ x, x ∈ l → P x) → filter P l = l.
Proof.
  induction l as [|x l IH]; intros Hall; [done|].
  rewrite filter_cons_True by (apply Hall; by left).
  f_equal. apply IH. intros y Hy. apply Hall. by right.
Qed.

(** X6: every column of a constructed view is a field of the schema, and
    it is a primary key field exactly when the region is not the body or
    the column header: keys are the row header columns, the rest the body
    columns. *)
Theorem metadata_constructor options region column f :
  metadata (constructor options) region column = Some f →
  f ∈ fields (IOptions.schema options)
  ∧ (name f ∈ primaryKeys (IOptions.schema options)
     ↔ ¬ (region = "body" ∨ region = "column-header")).
Proof.
  unfold metadata. simpl.
  rewrite splitFields_body, splitFields_header.
  destruct (String.eqb_spec region "body") as [Hb|Hb]; simpl;
    [|destruct (String.eqb_spec region "column-header") as [Hc|Hc]];
    intros Hf%index_Some_elem_of; apply list_elem_of_filter in Hf as [Hkey Hin];
    unfold isKey in Hkey; tauto.
Qed.

Lemma metadata_constructor_witness :
  idField ∈ fields (IOptions.schema sampleGrid)
  ∧ (name idField ∈ primaryKeys (IOptions.schema sampleGrid)
     ↔ ¬ ("corner-header" = "body" ∨ "corner-header" = "column-header")).
Proof.
  apply (metadata_constructor sampleGrid "corner-header" 0 idField).
  reflexivity.
Defined.

(** X7: every field of the schema is a column of the constructed view, at
    an index within the column count: of the row header when its name is a
    primary key, of the body otherwise. *)
Theorem metadata_covers_schema options f :
  f ∈ fields (IOptions.schema options) →
  let region :=
    if decide (name f ∈ primaryKeys (IOptions.schema options))
    then "row-header" else "body" in
  ∃ column,
    0 ≤ column < columnCount (constructor options) region
    ∧ metadata (constructor options) region column = Some f.
Proof.
  intros Hin region. subst region.
  destruct (decide (name f ∈ primaryKeys (IOptions.schema options)))
    as [Hkey|Hkey]; unfold metadata, columnCount; simpl;
    apply elem_of_index;
    rewrite ?splitFields_body, ?splitFields_header;
    by apply list_elem_of_filter.
Qed.

Lemma metadata_covers_schema_witness :
  ∃ column,
    0 ≤ column < columnCount (constructor sampleGrid) "body"
    ∧ metadata (constructor sampleGrid) "body" column
      = Some {| name := "y"; type := "string" |}.
Proof.
  apply (metadata_covers_schema sampleGrid {| name := "y"; type := "string" |}).
  simpl. do 4 apply list_elem_of_further. apply list_elem_of_here.
Defined.

(** X8: the column counts of the body and of the row header of a
    constructed view add up to the number of fields of the schema, and no
    region has more columns than the schema has fields. *)
Theorem columnCount_total options :
  let this := constructor options in
  let total := JS.length (fields (IOptions.schema options)) in
  columnCount this "body" + columnCount this "row-header" = total
  ∧ ∀ region, 0 ≤ columnCount this region ≤ total.
Proof.
  intros this total. subst this total. unfold columnCount, JS.length. simpl.
  rewrite splitFields_body, splitFields_header.
  set (fs := fields (IOptions.schema options)).
  set (keys := primaryKeys (IOptions.schema options)).
  pose proof (filter_app_complement (isKey keys) fs) as Hperm.
  apply Permutation_length in Hperm. rewrite length_app in Hperm.
  split; [lia|]. intros region. destruct (String.eqb region "body"); lia.
Qed.

(** X9: the view has no row header column exactly when no field name is a
    primary key, and then the body columns are the fields of the schema as
    they are, which is the case of a schema without [primaryKey]; it has no
    body column exactly when every field name is a primary key, and then
    the row header columns are the fields of the schema. *)
Theorem splitFields_one_sided schema :
  let split := splitFields schema in
  (headerFields split = []
   ↔ ∀ f, f ∈ fields schema → name f ∉ primaryKeys schema)
  ∧ (headerFields split = [] → bodyFields split = fields schema)
  ∧ (primaryKey schema = None → headerFields split = [])
  ∧ (bodyFields split = []
     ↔ ∀ f, f ∈ fields schema → name f ∈ primaryKeys schema)
  ∧ (bodyFields split = [] → headerFields split = fields schema).
Proof.
  intros split. subst split. rewrite splitFields_body, splitFields_header.
  set (keys := primaryKeys schema).
  assert (Hheader : filter (isKey keys) (fields schema) = []
                    ↔ ∀ f, f ∈ fields schema → name f ∉ keys)
    by apply filter_nil_iff.
  assert (Hbody : filter (λ f, ¬ isKey keys f) (fields schema) = []
                  ↔ ∀ f, f ∈ fields schema → name f ∈ keys).
  { rewrite filter_nil_iff. unfold isKey. split; intros Hall f Hf.
    - destruct (decide (name f ∈ keys)); [done|]. by destruct (Hall f Hf).
    - intros Hno. by apply Hno, Hall. }
  split; [exact Hheader|]. split; [|split; [|split; [exact Hbody|]]].
  - intros Hnil. apply filter_all. by apply Hheader.
  - intros Hnone. apply Hheader. intros f _. subst keys.
    unfold primaryKeys. rewrite Hnone. apply not_elem_of_nil.
  - intros Hnil. apply filter_all. by apply Hbody.
Qed.

Lemma splitFields_one_sided_witness :
  headerFields (splitFields (IOptions.schema scenarioB)) = []
  ∧ bodyFields (splitFields (IOptions.schema scenarioB))
    = fields (IOptions.schema scenarioB)
  ∧ bodyFields (splitFields (IOptions.schema scenarioA)) = []
  ∧ headerFields (splitFields (IOptions.schema scenarioA))
    = fields (IOptions.schema scenarioA).
Proof.
  pose proof (splitFields_one_sided (IOptions.schema scenarioB))
    as (_ & Hbody & Hnone & _).
  pose proof (splitFields_one_sided (IOptions.schema scenarioA))
    as (_ & _ & _ & _ & Hheader).
  split; [apply Hnone; reflexivity|].
  split; [apply Hbody, Hnone; reflexivity|].
  split; [reflexivity | apply Hheader; reflexivity].
Defined.

End columns.

(** ** The keys of the missing value map *)

Section keys.
Import Private.
Implicit Types (schema : ISchema) (values : list string).
Implicit Types (map : gmap string bool).

(** The loop of [createMissingMap] at any key: [true] for the listed
    strings, the map it started from for the others. *)
Lemma missing_loop_lookup values map (s : string) :
  fold_left (λ result value, <[value := true]> result) values map !! s
  = if decide (s ∈ values) then Some true else map !! s.
Proof.
  revert map. induction values as [|v values IH]; intros map; cbn [fold_left].
  - by rewrite decide_False by apply not_elem_of_nil.
  - rewrite IH. destruct (decide (s ∈ values)) as [Hin|Hout].
    + by rewrite decide_True by by right.
    + destruct (decide (v = s)) as [->|Hne].
      * rewrite lookup_insert_eq. by rewrite decide_True by by left.
      * rewrite lookup_insert_ne by done. rewrite decide_False; [done|].
        intros [Heq | Hin]%elem_of_cons; [congruence | done].
Qed.

(** With strings listed, the map is the one the loop builds. *)
Lemma createMissingMap_Some schema values :
  missingValues schema = Some values → values ≠ [] →
  createMissingMap schema
  = Some (fold_left (λ result value, <[value := true]> result) values ∅).
Proof.
  intros Hv Hne. unfold createMissingMap. rewrite Hv.
  by destruct values.
Qed.

(** X10: [createMissingMap] makes no map exactly when [missingValues] is
    absent or empty; the map it makes has the listed strings as its keys,
    no other key, and [true] at each of them. *)
Theorem createMissingMap_keys schema :
  (createMissingMap schema = None
   ↔ missingValues schema = None ∨ missingValues schema = Some [])
  ∧ ∀ map, createMissingMap schema = Some map →
      ∃ values, missingValues schema = Some values
        ∧ values ≠ []
        ∧ (∀ s : string, s ∈ dom map ↔ s ∈ values)
        ∧ (∀ (s : string) (b : bool), map !! s = Some b → b = true).
Proof.
  destruct (missingValues schema) as [values|] eqn:Hv;
    [|unfold createMissingMap; rewrite Hv; split; [tauto | done]].
  destruct (decide (values = [])) as [-> | Hne];
    [unfold createMissingMap; rewrite Hv; split; [tauto | done]|].
  rewrite (createMissingMap_Some _ _ Hv Hne).
  split; [split; [done | intros [[=] | [=]]; done]|].
  intros map [= <-]. exists values.
  split; [done|]. split; [done|]. split.
  - intros s. rewrite elem_of_dom, missing_loop_lookup, lookup_empty.
    destruct (decide (s ∈ values)); [by split; eauto|].
    split; [by intros [? [=]] | done].
  - intros s b. rewrite missing_loop_lookup, lookup_empty.
    destruct (decide (s ∈ values)); [by intros [= <-] | done].
Qed.

Lemma createMissingMap_keys_witness :
  ∃ values, missingValues (IOptions.schema sampleGrid) = Some values
    ∧ values ≠ []
    ∧ (∀ s : string, s ∈ dom ({[ "NA" := true; "-" := true ]} : gmap string bool)
                     ↔ s ∈ values)
    ∧ (∀ (s : string) (b : bool),
         ({[ "NA" := true; "-" := true ]} : gmap string bool) !! s = Some b →
         b = true).
Proof.
  apply (proj2 (createMissingMap_keys (IOptions.schema sampleGrid))).
  reflexivity.
Defined.

(** X11: the map depends on [missingValues] as a set: two schemas whose
    lists hold the same strings, in any order and however often, get the
    same map. *)
Theorem createMissingMap_set schema schema' values values' :
  missingValues schema = Some values →
  missingValues schema' = Some values' →
  (∀ s, s ∈ values ↔ s ∈ values') →
  createMissingMap schema = createMissingMap schema'.
Proof.
  intros Hv Hv' Hsame.
  destruct (decide (values = [])) as [-> | Hne].
  - assert (values' = []) as ->.
    { apply elem_of_nil_inv. intros s Hs. by apply Hsame, elem_of_nil in Hs. }
    unfold createMissingMap. by rewrite Hv, Hv'.
  - assert (values' ≠ []) as Hne'.
    { intros ->. apply Hne, elem_of_nil_inv.
      intros s Hs. by apply Hsame, elem_of_nil in Hs. }
    rewrite (createMissingMap_Some _ _ Hv Hne).
    rewrite (createMissingMap_Some _ _ Hv' Hne').
    f_equal. apply map_eq. intros s. rewrite !missing_loop_lookup.
    destruct (decide (s ∈ values)) as [Hin|Hout].
    + by rewrite decide_True by by apply Hsame.
    + by rewrite decide_False by by rewrite <- Hsame.
Qed.

Lemma createMissingMap_set_witness :
  createMissingMap (IOptions.schema sampleGrid)
  = createMissingMap
      {| fields := [];
         missingValues := Some ["-"; "NA"];
         primaryKey := None |}.
Proof.
  apply (createMissingMap_set _ _ ["NA"; "-"; "NA"] ["-"; "NA"]);
    [reflexivity | reflexivity |].
  intros s. rewrite !elem_of_cons, elem_of_nil. tauto.
Defined.

End keys.

(** ** What the missing values change *)

Section substitution.
Implicit Types (options : IOptions.t) (region : string) (row column : Z).

Lemma isMissing_substitute options (value : JS.Value) :
  (if isMissing (constructor options) value then JS.Null else value)
  = substitute (missingStrings (IOptions.schema options)) value.
Proof.
  pose proof (isMissing_constructor options value) as Hmiss.
  destruct (isMissing (constructor options) value).
  - destruct Hmiss as [(s & -> & Hin) _]; [done|]. simpl.
    by rewrite decide_True.
  - destruct value as [| | | |s| |]; try done. simpl.
    rewrite decide_False; [done|]. intros Hin.
    destruct Hmiss as [_ Hyes]. by discriminate Hyes; eauto.
Qed.

(** X12: the missing values of a schema change [data] in one way only: the
    view answers what the view of the same schema without [missingValues]
    answers, with [null] in the place of a listed string.  Every other
    value and every error is the same. *)
Theorem data_substitute options region row column :
  data (constructor options) region row column
  = (value ← data (constructor (withMissingValues None options))
               region row column;
     JS.Return (substitute (missingStrings (IOptions.schema options)) value)).
Proof.
  unfold data.
  change (lookup (constructor (withMissingValues None options))
            region row column)
    with (lookup (constructor options) region row column).
  destruct (lookup (constructor options) region row column) as [value|e];
    simpl; [|done].
  by rewrite isMissing_substitute.
Qed.

(** X13: a view of a schema without [primaryKey] has no header column:
    [metadata] is [undefined] and [data] fails with a [TypeError] in the row
    header and in the corner header, at every row and column. *)
Theorem no_primaryKey_no_header options row column :
  primaryKey (IOptions.schema options) = None →
  let this := constructor options in
  columnCount this "row-header" = 0
  ∧ metadata this "row-header" column = None
  ∧ metadata this "corner-header" column = None
  ∧ data this "row-header" row column = JS.Throw JS.TypeError
  ∧ data this "corner-header" row column = JS.Throw JS.TypeError.
Proof.
  intros Hnone this.
  assert (Hheader : _headerFields this = []).
  { subst this. simpl. rewrite splitFields_header.
    apply filter_nil_iff. intros f _. unfold isKey, Private.primaryKeys.
    rewrite Hnone. apply not_elem_of_nil. }
  assert (Hindex : JS.index (_headerFields this) column = None).
  { rewrite Hheader. unfold JS.index. by destruct (column <? 0). }
  split; [change (JS.length (_headerFields this) = 0); by rewrite Hheader|].
  split; [exact Hindex|]. split; [exact Hindex|]. unfold data.
  rewrite lookup_cell, lookup_label by tauto.
  change (metadata this "row-header" column)
    with (JS.index (_headerFields this) column).
  change (metadata this "corner-header" column)
    with (JS.index (_headerFields this) column).
  by rewrite Hindex.
Qed.

Lemma no_primaryKey_no_header_witness :
  columnCount (constructor scenarioB) "row-header" = 0
  ∧ metadata (constructor scenarioB) "row-header" 0 = None
  ∧ metadata (constructor scenarioB) "corner-header" 0 = None
  ∧ data (constructor scenarioB) "row-header" 0 0 = JS.Throw JS.TypeError
  ∧ data (constructor scenarioB) "corner-header" 0 0 = JS.Throw JS.TypeError.
Proof. apply (no_primaryKey_no_header scenarioB 0 0). reflexivity. Defined.

End substitution.
